(** * geoana-docs: the two magnetostatics notebooks

    A shallow embedding of the notebooks' own logic: the orientation
    converter [id_to_cartesian], the grid construction, the reshapes the
    renderers perform before plotting, and the wiring of the interactive
    controls into the source constructors.

    Floating-point numbers are modelled as exact real numbers ([R]); a
    flat numpy array is a [list], a 2-D numpy array is an [ndarray2]
    (shape plus rows). *)

From Stdlib Require Import List Arith Lia ZArith Reals Lra.
Import ListNotations.

(** ** 2-D arrays: numpy's [reshape], [.T] and [flatten] *)

(** numpy's [order=] keyword. *)
Inductive order : Type := C_order | F_order.

Section NdArray.
Variable A : Type.
(** [d] is only what [nth] answers out of range; [reshape] checks the
    size first, so no entry of a well-formed array is ever [d]. *)
Variable d : A.

(** A 2-D array: its shape and its rows. *)
Record ndarray2 : Type := mk_ndarray2 {
  shape0 : nat;
  shape1 : nat;
  rows : list (list A)
}.

Definition wf (a : ndarray2) : Prop :=
  length (rows a) = shape0 a /\
  Forall (fun r => length r = shape1 a) (rows a).

(** [a[i, j]] *)
Definition get (a : ndarray2) (i j : nat) : A :=
  nth j (nth i (rows a) []) d.

(** The array of shape [(n, m)] whose entry [(i, j)] is [f i j]. *)
Definition tabulate (n m : nat) (f : nat -> nat -> A) : ndarray2 :=
  mk_ndarray2 n m (map (fun i => map (fun j => f i j) (seq 0 m)) (seq 0 n)).

(** Position in the flat buffer of the entry [(i, j)] of an array of
    shape [(n, m)]: row-major for ['C'], column-major for ['F']. *)
Definition ravel_index (o : order) (n m i j : nat) : nat :=
  match o with
  | C_order => i * m + j
  | F_order => i + j * n
  end.

(** [v.reshape(n, m, order=o)] for a flat [v]: numpy raises when the
    sizes do not match ([None] here). *)
Definition reshape (o : order) (n m : nat) (v : list A) : option ndarray2 :=
  if length v =? n * m
  then Some (tabulate n m (fun i j => nth (ravel_index o n m i j) v d))
  else None.

(** [a.T] *)
Definition transpose (a : ndarray2) : ndarray2 :=
  tabulate (shape1 a) (shape0 a) (fun j i => get a i j).

(** [a.flatten(order=o)]: rows one after the other for ['C'], columns
    one after the other for ['F']. *)
Definition flatten (o : order) (a : ndarray2) : list A :=
  match o with
  | C_order => concat (rows a)
  | F_order => concat (rows (transpose a))
  end.

End NdArray.

Arguments mk_ndarray2 {A} _ _ _.
Arguments shape0 {A} _.
Arguments shape1 {A} _.
Arguments rows {A} _.
Arguments wf {A} _.
Arguments get {A} d a i j.
Arguments tabulate {A} n m f.
Arguments reshape {A} d o n m v.
Arguments transpose {A} d a.
Arguments flatten {A} d o a.

Open Scope R_scope.

(** ** Vectors, numpy and geoana helpers *)

Definition vec3 : Type := (R * R * R)%type.

Definition vx (p : vec3) : R := fst (fst p).
Definition vy (p : vec3) : R := snd (fst p).
Definition vz (p : vec3) : R := snd p.

(** Euclidean norm of a 3-vector. *)
Definition norm3 (p : vec3) : R :=
  sqrt (vx p * vx p + vy p * vy p + vz p * vz p).

(** What a numpy array of three floats can hold in the first notebook:
    three numbers, or three NaN (what 0 / 0 leaves in every entry). *)
Inductive float_array3 : Type :=
| Values (v : vec3)
| NaNs.

(** Modelled from the spec: geoana's constructors are not part of the
    notebooks.  Section 3 leaves normalising the orientation to the
    evaluator; geoana does it when a source is constructed, dividing the
    array it is handed by its norm in place
    ([var /= np.linalg.norm(var)]), so a zero vector turns into
    (nan, nan, nan), and whoever else holds the array sees the result. *)
Definition normalise_in_place (a : float_array3) : float_array3 :=
  match a with
  | Values v =>
      if Req_dec_T (norm3 v) 0 then NaNs
      else Values (vx v / norm3 v, vy v / norm3 v, vz v / norm3 v)
  | NaNs => NaNs
  end.

(** Modelled from the spec: geoana's [spatial.vector_magnitude] is not part
    of the notebooks; section 4.4 has it compute the per-point vector
    magnitude. *)
Definition vector_magnitude (v : list vec3) : list R := map norm3 v.

(** Modelled from the spec: numpy's [linspace] is not part of the
    notebooks; section 4.2 has it give [num] linearly spaced samples over
    [[start, stop]], both ends included. *)
Definition linspace (start stop : R) (num : nat) : list R :=
  match num with
  | O => []
  | S O => [start]
  | _ => map (fun i => start + INR i * ((stop - start) / INR (num - 1)))
             (seq 0 num)
  end.

(** Modelled from the spec: geoana's [utils.ndgrid] is not part of the
    notebooks; section 4.2 has it give the Cartesian product of the axes as
    a sequence of 3-D points.  The first axis runs fastest. *)
Definition ndgrid (xs ys zs : list R) : list vec3 :=
  flat_map (fun z => flat_map (fun y => map (fun x => (x, y, z)) xs) ys) zs.

(** ** The external field evaluator

    The source objects are the records of the arguments their constructors
    are passed, with the values the arrays hold at the moment of the call;
    the query methods are an interface.  The orientation the loop is passed
    is the array the dipole's constructor has already normalised in place,
    which can hold NaN. *)

Record MagneticDipoleWholeSpace : Type := {
  dipole_mu : R;
  dipole_location : vec3;
  dipole_orientation : vec3;
  dipole_moment : R
}.

Record CircularLoopWholeSpace : Type := {
  loop_mu : R;
  loop_location : vec3;
  loop_orientation : float_array3;
  loop_current : R;
  loop_radius : R
}.

Record MagneticPoleWholeSpace : Type := {
  pole_mu : R;
  pole_location : vec3;
  pole_orientation : vec3;
  pole_moment : R
}.

Class FieldEvaluator : Type := {
  (** [scipy.constants.mu_0], also the constructors' default [mu] *)
  mu_0 : R;
  dipole_vector_potential : MagneticDipoleWholeSpace -> list vec3 -> list vec3;
  loop_vector_potential : CircularLoopWholeSpace -> list vec3 -> list vec3;
  dipole_magnetic_flux_density : MagneticDipoleWholeSpace -> list vec3 -> list vec3;
  pole_magnetic_flux_density : MagneticPoleWholeSpace -> list vec3 -> list vec3;
  dipole_dot_orientation : MagneticDipoleWholeSpace -> list vec3 -> list R;
  pole_dot_orientation : MagneticPoleWholeSpace -> list vec3 -> list R
}.

(** A stand-in evaluator, to run the pipeline without the physics: every
    field is zero at every point. *)
Definition stub_evaluator : FieldEvaluator :=
  {| mu_0 := 4 * PI / 10000000;
     dipole_vector_potential := fun _ pts => map (fun _ => (0, 0, 0)) pts;
     loop_vector_potential := fun _ pts => map (fun _ => (0, 0, 0)) pts;
     dipole_magnetic_flux_density := fun _ pts => map (fun _ => (0, 0, 0)) pts;
     pole_magnetic_flux_density := fun _ pts => map (fun _ => (0, 0, 0)) pts;
     dipole_dot_orientation := fun _ vs => map (fun _ => 0) vs;
     pole_dot_orientation := fun _ vs => map (fun _ => 0) vs |}.

(** ** Plotting calls and slider widgets *)

(** [ax.pcolormesh(x, y, C)] *)
Record pcolormesh_call : Type := {
  pm_x : list R;
  pm_y : list R;
  pm_C : ndarray2 R
}.

(** The abbreviations the two [interactive] calls use for a control: no
    keyword (the widget comes from the integer default of the function's
    signature), a pair [(min, max)] of floats, a triple [(min, max, step)]
    of floats. *)
Inductive abbreviation : Type :=
| IntDefault (value : Z)
| FloatPair (lo hi : R)
| FloatTriple (lo hi step : R).

(** The range data of a slider. *)
Record slider : Type := {
  slider_is_int : bool;
  slider_min : R;
  slider_max : R;
  slider_step : R
}.

(** Modelled from the spec: ipywidgets is not part of the notebooks.
    Section 6 has moment range over [-1, 3], and the recorded output of the
    first notebook shows the slider of the default 1 as
    [IntSlider(value=1, description='moment', max=3, min=-1)]: a bare
    integer default [value] gets the range [(-value, 3 * value)] when it is
    positive, [(3 * value, -value)] when it is negative, [(0, 1)] at 0. *)
Definition int_range (value : Z) : Z * Z :=
  if (value =? 0)%Z then (value, value + 1)%Z
  else if (0 <? value)%Z then (- value, 3 * value)%Z
  else (3 * value, - value)%Z.

(** Modelled from the spec: ipywidgets is not part of the notebooks;
    section 6 has every control be a slider with a range and a step.  A
    pair or triple gives the range (and the step); the steps left out are
    the widgets' defaults, 1 for [IntSlider] and 0.1 for [FloatSlider]. *)
Definition widget_from_abbrev (a : abbreviation) : slider :=
  match a with
  | IntDefault value =>
      {| slider_is_int := true;
         slider_min := IZR (fst (int_range value));
         slider_max := IZR (snd (int_range value));
         slider_step := 1 |}
  | FloatPair lo hi =>
      {| slider_is_int := false;
         slider_min := lo; slider_max := hi; slider_step := 1 / 10 |}
  | FloatTriple lo hi step =>
      {| slider_is_int := false;
         slider_min := lo; slider_max := hi; slider_step := step |}
  end.

(** A value the slider can be set to: within the range, a whole number of
    steps above the minimum. *)
Definition admissible (s : slider) (v : R) : Prop :=
  slider_min s <= v <= slider_max s /\
  exists k : nat, v = slider_min s + INR k * slider_step s.

(** ** First notebook: vector potentials of a dipole and a loop *)

Module VectorPotential.

(** [v.reshape(len(x), len(y), order='C')], the array [plot_amplitude]
    hands to [pcolormesh]. *)
Definition amplitude_grid (x y w : list R) : option (ndarray2 R) :=
  reshape 0 C_order (length x) (length y) w.

(** [w.reshape(len(x), len(y), order='F').T], the arrays
    [plot_streamlines] hands to [streamplot]. *)
Definition streamline_grid (x y w : list R) : option (ndarray2 R) :=
  option_map (transpose 0) (reshape 0 F_order (length x) (length y) w).

(** A call of the evaluator: the method, the source object it is called
    on and the points it is called at. *)
Inductive evaluation : Type :=
| Dipole_vector_potential (source : MagneticDipoleWholeSpace)
                          (points : list vec3)
| Loop_vector_potential (source : CircularLoopWholeSpace)
                        (points : list vec3).

(** One run of [plot_fields] up to the plotting: the source objects it
    constructs, what the orientation array holds once both are
    constructed, the grid, and the calls of the evaluator, in order.  The
    plotting that follows is not part of the record; the arrays it builds
    for [pcolormesh] and [streamplot] are [amplitude_grid] and
    [streamline_grid]. *)
Record run : Type := {
  dipole : MagneticDipoleWholeSpace;
  loop : CircularLoopWholeSpace;
  held_orientation : float_array3;
  xyz : list vec3;
  evaluations : list evaluation
}.

Section Pipeline.
Context {E : FieldEvaluator}.

Definition plot_fields
  (moment current radius location_x location_y location_z
   orientation_x orientation_y orientation_z : R) : run :=
  let mu := mu_0 in
  let location := (location_x, location_y, location_z) in
  (* one array, handed to both constructors *)
  let orientation := (orientation_x, orientation_y, orientation_z) in
  let dipole :=
    {| dipole_mu := mu; dipole_location := location;
       dipole_orientation := orientation; dipole_moment := moment |} in
  (* the dipole's constructor has normalised the array *)
  let orientation := normalise_in_place (Values orientation) in
  let loop :=
    {| loop_mu := mu; loop_location := location;
       loop_orientation := orientation; loop_current := current;
       loop_radius := radius |} in
  (* and so has the loop's *)
  let orientation := normalise_in_place orientation in
  let x := linspace (-50) 50 100 in
  let y := linspace (-50) 50 100 in
  let xyz := ndgrid x y [0] in
  {| dipole := dipole; loop := loop; held_orientation := orientation;
     xyz := xyz;
     evaluations := [Dipole_vector_potential dipole xyz;
                     Loop_vector_potential loop xyz] |}.
End Pipeline.

(** The interaction controls: one per keyword of [plot_fields]. *)
Inductive control : Type :=
| Moment | Current | Radius
| Location_x | Location_y | Location_z
| Orientation_x | Orientation_y | Orientation_z.

Definition control_eq_dec (c c' : control) : {c = c'} + {c <> c'}.
Proof. decide equality. Defined.

(** The abbreviation of each control: the keyword of the [interactive]
    call where there is one, else the default of [plot_fields]. *)
Definition abbreviation_of (c : control) : abbreviation :=
  match c with
  | Moment => IntDefault 1
  | Current => IntDefault 1
  | Radius => FloatTriple 1 40 1
  | Location_x | Location_y | Location_z => FloatTriple (-40) 40 1
  | Orientation_x | Orientation_y | Orientation_z =>
      FloatTriple 0 1 (1 / 10)
  end.

(** [interactive(plot_fields, radius=(1.,40.,1.), ...)]: the slider of
    each control. *)
Definition interactive (c : control) : slider :=
  widget_from_abbrev (abbreviation_of c).

(** The current values of the controls, the keyword arguments of the
    next call of [plot_fields]. *)
Definition kwargs : Type := control -> R.

(** The defaults of [plot_fields]. *)
Definition defaults : kwargs :=
  fun c =>
    match c with
    | Moment => 1 | Current => 1 | Radius => 20
    | Location_x | Location_y | Location_z => 0
    | Orientation_x | Orientation_y => 0
    | Orientation_z => 1
    end.

(** A control is moved to [v]. *)
Definition set_control (kw : kwargs) (c : control) (v : R) : kwargs :=
  fun c' => if control_eq_dec c' c then v else kw c'.

(** The defaults with the slider of [orientation_z] pulled down to 0. *)
Definition zero_orientation : kwargs := set_control defaults Orientation_z 0.

(** [plot_fields] called on the current keyword arguments, what
    [interactive] does on every change. *)
Definition rerun {E : FieldEvaluator} (kw : kwargs) : run :=
  plot_fields (kw Moment) (kw Current) (kw Radius)
              (kw Location_x) (kw Location_y) (kw Location_z)
              (kw Orientation_x) (kw Orientation_y) (kw Orientation_z).








(** The orientation [plot_fields] builds from the three sliders. *)
Definition built_orientation (kw : kwargs) : vec3 :=
  (kw Orientation_x, kw Orientation_y, kw Orientation_z).


(** A setting every slider allows. *)
Definition admissible_setting (kw : kwargs) : Prop :=
  forall c, admissible (interactive c) (kw c).

End VectorPotential.

(** ** Second notebook: total magnetic field of a dipole and a pole *)

Module TotalField.

Definition id_to_cartesian (inclination declination : R) : vec3 :=
  let ux := cos (inclination / 180 * PI) * sin (declination / 180 * PI) in
  let uy := cos (inclination / 180 * PI) * cos (declination / 180 * PI) in
  let uz := - sin (inclination / 180 * PI) in
  (ux, uy, uz).

(** The spec's reading of the converter: degrees go to radians first,
    then the three formulas of section 4.1. *)
Definition radians (degrees : R) : R := degrees * (PI / 180).

Definition orientation_spec (inclination declination : R) : vec3 :=
  let i := radians inclination in
  let d := radians declination in
  (cos i * sin d, cos i * cos d, - sin i).

(** [v.reshape(len(x), len(y), order='F')], the array this notebook's
    [plot_amplitude] hands to [pcolormesh]. *)
Definition plot_amplitude (x y v : list R) : option pcolormesh_call :=
  option_map (fun c => {| pm_x := x; pm_y := y; pm_C := c |})
             (reshape 0 F_order (length x) (length y) v).

(** The notebook's globals. *)
Definition location : vec3 := (0, 0, -10).
Definition moment : R := 1.

(** One run of [plot_fields]: the source objects it constructs, the
    points it evaluates them at, and the two images ([None] when a
    reshape raises). *)
Record run : Type := {
  dipole : MagneticDipoleWholeSpace;
  pole : MagneticPoleWholeSpace;
  xyz : list vec3;
  shown : option (pcolormesh_call * pcolormesh_call)
}.

Definition plot_fields {E : FieldEvaluator} (inclination declination : R)
  : run :=
  let orientation := id_to_cartesian inclination declination in
  let dipole :=
    {| dipole_mu := mu_0; dipole_location := location;
       dipole_orientation := orientation; dipole_moment := moment |} in
  let pole :=
    {| pole_mu := mu_0; pole_location := location;
       pole_orientation := orientation; pole_moment := moment |} in
  let x := linspace (-36) 36 100 in
  let y := linspace (-36) 36 100 in
  let xyz := ndgrid x y [1] in
  let b_vec_dipole := dipole_magnetic_flux_density dipole xyz in
  let b_vec_pole := pole_magnetic_flux_density pole xyz in
  let b_total_dipole := dipole_dot_orientation dipole b_vec_dipole in
  let b_total_pole := pole_dot_orientation pole b_vec_pole in
  {| dipole := dipole; pole := pole; xyz := xyz;
     shown :=
       match plot_amplitude x y b_total_dipole,
             plot_amplitude x y b_total_pole with
       | Some p0, Some p1 => Some (p0, p1)
       | _, _ => None
       end |}.

Inductive control : Type := Inclination | Declination.

(** [interactive(plot_fields, inclination=(0.,67.,1.),
    declination=(0., 90.))] *)
Definition abbreviation_of (c : control) : abbreviation :=
  match c with
  | Inclination => FloatTriple 0 67 1
  | Declination => FloatPair 0 90
  end.

Definition interactive (c : control) : slider :=
  widget_from_abbrev (abbreviation_of c).

End TotalField.

(** * Properties *)

(** ** Arrays *)

Section ArrayFacts.
Variable A : Type.
Variable d : A.

Lemma wf_tabulate n m (f : nat -> nat -> A) : wf (tabulate n m f).
Proof.
  split; simpl.
  - now rewrite length_map, length_seq.
  - apply Forall_forall. intros r Hr.
    apply in_map_iff in Hr. destruct Hr as [i [<- _]].
    now rewrite length_map, length_seq.
Qed.

Lemma get_tabulate n m (f : nat -> nat -> A) i j :
  (i < n)%nat -> (j < m)%nat -> get d (tabulate n m f) i j = f i j.
Proof.
  intros Hi Hj. unfold get, tabulate; simpl.
  rewrite (nth_indep _ [] (map (fun j => f 0%nat j) (seq 0 m)))
    by now rewrite length_map, length_seq.
  rewrite (map_nth (fun i => map (fun j => f i j) (seq 0 m)) (seq 0 n) 0%nat i).
  rewrite seq_nth by assumption. simpl.
  rewrite (nth_indep _ d (f i 0%nat)) by now rewrite length_map, length_seq.
  rewrite (map_nth (fun j => f i j) (seq 0 m) 0%nat j).
  now rewrite seq_nth.
Qed.

Lemma tabulate_ext n m (f g : nat -> nat -> A) :
  (forall i j, (i < n)%nat -> (j < m)%nat -> f i j = g i j) ->
  tabulate n m f = tabulate n m g.
Proof.
  intros H. unfold tabulate. f_equal.
  apply map_ext_in. intros i Hi. apply in_seq in Hi.
  apply map_ext_in. intros j Hj. apply in_seq in Hj.
  apply H; lia.
Qed.

(** A well-formed array is the table of its own entries. *)
Lemma wf_eq_tabulate (a : ndarray2 A) :
  wf a -> a = tabulate (shape0 a) (shape1 a) (get d a).
Proof.
  destruct a as [n m rs]. unfold wf, get, tabulate; simpl.
  intros [Hn Hm]. f_equal.
  apply (nth_ext _ _ [] []).
  - now rewrite length_map, length_seq.
  - intros i Hi. rewrite Hn in Hi.
    assert (Hr : length (nth i rs []) = m).
    { rewrite Forall_forall in Hm. apply Hm, nth_In. lia. }
    rewrite (nth_indep (map _ _) []
               (map (fun j => nth j (nth 0 rs []) d) (seq 0 m)))
      by now rewrite length_map, length_seq.
    rewrite (map_nth (fun i => map (fun j => nth j (nth i rs []) d) (seq 0 m))
               (seq 0 n) 0%nat i).
    rewrite seq_nth by assumption. simpl.
    apply (nth_ext _ _ d d).
    + now rewrite length_map, length_seq.
    + intros j Hj. rewrite Hr in Hj.
      rewrite (nth_indep (map _ _) d (nth 0 (nth i rs []) d))
        by now rewrite length_map, length_seq.
      rewrite (map_nth (fun j => nth j (nth i rs []) d) (seq 0 m) 0%nat j).
      now rewrite seq_nth.
Qed.

(** The rows of a well-formed array laid end to end. *)
Lemma length_concat_uniform (m : nat) (rs : list (list A)) :
  Forall (fun r => length r = m) rs ->
  length (concat rs) = (length rs * m)%nat.
Proof.
  induction 1 as [|r rs Hr _ IH]; simpl; [reflexivity|].
  rewrite length_app, IH, Hr. reflexivity.
Qed.

Lemma nth_concat_uniform (m : nat) (rs : list (list A)) i j :
  Forall (fun r => length r = m) rs ->
  (j < m)%nat ->
  nth (i * m + j) (concat rs) d = nth j (nth i rs []) d.
Proof.
  intros Hrs Hj. revert i.
  induction Hrs as [|r rs Hr _ IH]; intros i.
  - simpl. destruct i, j; simpl; try reflexivity;
      now destruct (_ + _)%nat.
  - destruct i as [|i]; simpl.
    + apply app_nth1. lia.
    + rewrite app_nth2 by lia.
      replace (m + i * m + j - length r)%nat with (i * m + j)%nat by lia.
      apply IH.
Qed.

End ArrayFacts.

Section ReshapeFacts.
Variable A : Type.
Variable d : A.

Lemma reshape_some o n m (v : list A) :
  length v = (n * m)%nat ->
  reshape d o n m v =
  Some (tabulate n m (fun i j => nth (ravel_index o n m i j) v d)).
Proof.
  intros H. unfold reshape. now rewrite (proj2 (Nat.eqb_eq _ _) H).
Qed.

Lemma reshape_none o n m (v : list A) :
  length v <> (n * m)%nat -> reshape d o n m v = None.
Proof.
  intros H. unfold reshape. now rewrite (proj2 (Nat.eqb_neq _ _) H).
Qed.

Lemma transpose_tabulate n m (f : nat -> nat -> A) :
  transpose d (tabulate n m f) = tabulate m n (fun j i => f i j).
Proof.
  unfold transpose. simpl shape0. simpl shape1.
  apply tabulate_ext. intros j i Hj Hi. now apply get_tabulate.
Qed.

(** Column-major reshape followed by [.T] is the row-major reshape into
    the swapped shape, for every flat array (both raise on a size
    mismatch). *)
Lemma transpose_reshape_F n m (v : list A) :
  option_map (transpose d) (reshape d F_order n m v) =
  reshape d C_order m n v.
Proof.
  destruct (Nat.eq_dec (length v) (n * m)) as [H|H].
  - rewrite (reshape_some F_order) by assumption.
    rewrite (reshape_some C_order) by lia.
    simpl. f_equal. rewrite transpose_tabulate.
    apply tabulate_ext. intros j i _ _. simpl. f_equal. lia.
  - rewrite (reshape_none F_order) by assumption.
    rewrite (reshape_none C_order) by lia.
    reflexivity.
Qed.

Lemma flatten_length o (a : ndarray2 A) :
  wf a -> length (flatten d o a) = (shape0 a * shape1 a)%nat.
Proof.
  intros [Hn Hm]. destruct o; simpl.
  - rewrite (length_concat_uniform A (shape1 a)) by assumption.
    now rewrite Hn.
  - rewrite (length_concat_uniform A (shape0 a)).
    + rewrite length_map, length_seq. lia.
    + apply (wf_tabulate A (shape1 a) (shape0 a)).
Qed.

Lemma reshape_flatten o (a : ndarray2 A) :
  wf a -> reshape d o (shape0 a) (shape1 a) (flatten d o a) = Some a.
Proof.
  intros Ha.
  rewrite reshape_some by now apply flatten_length.
  f_equal. rewrite (wf_eq_tabulate A d a Ha) at 3.
  apply tabulate_ext. intros i j Hi Hj.
  destruct o; simpl.
  - apply nth_concat_uniform; [apply Ha | assumption].
  - rewrite Nat.add_comm.
    rewrite (nth_concat_uniform A d (shape0 a)); [| | assumption].
    + change (get d (transpose d a) j i = get d a i j).
      unfold transpose. now rewrite get_tabulate.
    + apply (wf_tabulate A (shape1 a) (shape0 a)).
Qed.

End ReshapeFacts.

(** ** The orientation converter *)

Lemma degrees_as_radians (a : R) : a / 180 * PI = TotalField.radians a.
Proof. unfold TotalField.radians. field. Qed.

(** C1: for every inclination and declination in degrees,
    [id_to_cartesian] returns (cos i * sin d, cos i * cos d, - sin i),
    where i and d are the two angles converted from degrees to radians. *)
Theorem id_to_cartesian_formula (inclination declination : R) :
  TotalField.id_to_cartesian inclination declination =
  TotalField.orientation_spec inclination declination.
Proof.
  unfold TotalField.id_to_cartesian, TotalField.orientation_spec.
  cbv zeta. now rewrite !degrees_as_radians.
Qed.

(** C4: for every pair of angles, whatever their range, the vector
    [id_to_cartesian] returns has Euclidean norm 1 (in exact real
    arithmetic). *)
Theorem id_to_cartesian_unit (inclination declination : R) :
  norm3 (TotalField.id_to_cartesian inclination declination) = 1.
Proof.
  unfold norm3, TotalField.id_to_cartesian, vx, vy, vz; simpl.
  set (i := inclination / 180 * PI).
  set (e := declination / 180 * PI).
  replace (cos i * sin e * (cos i * sin e) + cos i * cos e * (cos i * cos e)
           + - sin i * - sin i)
    with ((sin i)² + (cos i)² * ((sin e)² + (cos e)²)) by (unfold Rsqr; ring).
  rewrite (sin2_cos2 e), Rmult_1_r, sin2_cos2.
  apply sqrt_1.
Qed.

(** C7: at inclination 0 and declination 0 the converter returns
    (0, 1, 0); at inclination 90 and declination 0 it returns
    (0, 0, -1). *)
Theorem id_to_cartesian_cardinal :
  TotalField.id_to_cartesian 0 0 = (0, 1, 0) /\
  TotalField.id_to_cartesian 90 0 = (0, 0, -1).
Proof.
  unfold TotalField.id_to_cartesian; cbv zeta.
  replace (0 / 180 * PI) with 0 by field.
  replace (90 / 180 * PI) with (PI / 2) by field.
  rewrite cos_0, sin_0, cos_PI2, sin_PI2.
  split; repeat f_equal; ring.
Qed.

(** ** Grid construction *)

Lemma linspace_length (start stop : R) (num : nat) :
  length (linspace start stop num) = num.
Proof.
  destruct num as [|[|num]]; try reflexivity.
  unfold linspace. now rewrite length_map, length_seq.
Qed.

Lemma flat_map_length_uniform {X Y : Type} (f : X -> list Y) (k : nat) l :
  (forall a, length (f a) = k) ->
  length (flat_map f l) = (length l * k)%nat.
Proof.
  intros Hf. induction l as [|a l IH]; [reflexivity|].
  change (flat_map f (a :: l)) with (f a ++ flat_map f l).
  rewrite length_app, IH, Hf. reflexivity.
Qed.

Lemma ndgrid_length (xs ys zs : list R) :
  length (ndgrid xs ys zs) = (length xs * length ys * length zs)%nat.
Proof.
  unfold ndgrid.
  rewrite (flat_map_length_uniform _ (length xs * length ys)); [lia|].
  intros z. rewrite (flat_map_length_uniform _ (length xs)); [lia|].
  intros y. apply length_map.
Qed.

Lemma ndgrid_third (xs ys zs : list R) :
  Forall (fun p => In (vz p) zs) (ndgrid xs ys zs).
Proof.
  apply Forall_forall. intros p Hp. unfold ndgrid in Hp.
  apply in_flat_map in Hp. destruct Hp as [z [Hz Hp]].
  apply in_flat_map in Hp. destruct Hp as [y [_ Hp]].
  apply in_map_iff in Hp. destruct Hp as [x [<- _]].
  exact Hz.
Qed.

(** C6: the grid [plot_fields] builds from x = linspace(-50, 50, 100),
    y = linspace(-50, 50, 100) and the third coordinate 0 has exactly
    10000 points, and the third coordinate of every one of them is 0. *)
Theorem grid_construction_10000 :
  let x := linspace (-50) 50 100 in
  let y := linspace (-50) 50 100 in
  let xyz := ndgrid x y [0] in
  (forall (E : FieldEvaluator) (mo cu ra lx ly lz ox oy oz : R),
      VectorPotential.xyz
        (VectorPotential.plot_fields mo cu ra lx ly lz ox oy oz) = xyz) /\
  Z.of_nat (length xyz) = 10000%Z /\
  Forall (fun p => vz p = 0) xyz.
Proof.
  cbv zeta. split; [reflexivity|]. split.
  - rewrite ndgrid_length, !linspace_length. reflexivity.
  - eapply Forall_impl; [|apply ndgrid_third].
    intros p [H|[]]. now symmetry.
Qed.

(** ** The renderers' reshapes *)

(** On every grid the streamline renderer's array is the row-major reshape
    into the shape [(len(y), len(x))]. *)
Lemma streamline_grid_row_major (x y w : list R) :
  VectorPotential.streamline_grid x y w =
  reshape 0 C_order (length y) (length x) w.
Proof. apply transpose_reshape_F. Qed.

(** On a square grid the two renderers hand over the same array. *)
Lemma square_grids_agree (x y w : list R) :
  length x = length y ->
  VectorPotential.amplitude_grid x y w = VectorPotential.streamline_grid x y w.
Proof.
  intros H. rewrite streamline_grid_row_major.
  unfold VectorPotential.amplitude_grid. now rewrite H.
Qed.

(** X9: on a grid that is not square the two arrays differ in shape. *)
Lemma nonsquare_grids_differ (x y w : list R) a b :
  length x <> length y ->
  VectorPotential.amplitude_grid x y w = Some a ->
  VectorPotential.streamline_grid x y w = Some b ->
  shape0 a <> shape0 b.
Proof.
  intros H Ha Hb. rewrite streamline_grid_row_major in Hb.
  unfold VectorPotential.amplitude_grid, reshape in Ha.
  unfold reshape in Hb.
  destruct (length w =? length x * length y)%nat; [|discriminate].
  destruct (length w =? length y * length x)%nat; [|discriminate].
  injection Ha as <-. injection Hb as <-. exact H.
Qed.

(** The flat array 0, 1, 2, ... tells the two reshape orders apart. *)
Lemma orders_differ (n : nat) :
  (2 <= n)%nat ->
  reshape 0 C_order n n (map INR (seq 0 (n * n))) <>
  reshape 0 F_order n n (map INR (seq 0 (n * n))).
Proof.
  intros Hn Heq.
  rewrite !reshape_some in Heq by now rewrite length_map, length_seq.
  injection Heq as Heq.
  assert (Hget : forall k, (k < n * n)%nat ->
                           nth k (map INR (seq 0 (n * n))) 0 = INR k).
  { intros k Hk. change 0 with (INR 0).
    rewrite (map_nth INR). now rewrite seq_nth. }
  assert (H := f_equal
                 (fun rs => nth 1 (nth 0 rs []) 0) Heq).
  cbv beta in H.
  change (get 0 (tabulate n n
            (fun i j => nth (ravel_index C_order n n i j)
                            (map INR (seq 0 (n * n))) 0)) 0 1 =
          get 0 (tabulate n n
            (fun i j => nth (ravel_index F_order n n i j)
                            (map INR (seq 0 (n * n))) 0)) 0 1) in H.
  rewrite !get_tabulate in H by lia.
  simpl ravel_index in H.
  rewrite !Hget in H by nia.
  apply INR_eq in H. lia.
Qed.

(** C3: for every flat array v of length len(x) * len(y), the reshape into
    (len(x), len(y)) in order 'F' followed by a transposition, which is
    what the streamline renderer hands to streamplot, is the reshape of v
    into (len(y), len(x)) in order 'C'. *)
Theorem streamline_reshape_is_row_major (x y v : list R) :
  length v = (length x * length y)%nat ->
  exists a,
    reshape 0 F_order (length x) (length y) v = Some a /\
    reshape 0 C_order (length y) (length x) v = Some (transpose 0 a) /\
    VectorPotential.streamline_grid x y v = Some (transpose 0 a).
Proof.
  intros Hv.
  exists (tabulate (length x) (length y)
            (fun i j => nth (ravel_index F_order (length x) (length y) i j) v 0)).
  assert (HF := reshape_some R 0 F_order _ _ v Hv).
  split; [exact HF|].
  split.
  - rewrite <- transpose_reshape_F, HF. reflexivity.
  - unfold VectorPotential.streamline_grid. rewrite HF. reflexivity.
Qed.

Lemma streamline_reshape_is_row_major_witness :
  let x := [0; 1] in
  let y := [0; 1; 2] in
  let v := [10; 11; 12; 13; 14; 15] in
  length v = (length x * length y)%nat /\
  exists a,
    reshape 0 F_order (length x) (length y) v = Some a /\
    reshape 0 C_order (length y) (length x) v = Some (transpose 0 a) /\
    VectorPotential.streamline_grid x y v = Some (transpose 0 a).
Proof.
  cbv zeta. split; [reflexivity|].
  apply (streamline_reshape_is_row_major [0; 1] [0; 1; 2]). reflexivity.
Defined.

(** C5: for every grid of shape (len(x), len(y)), flattening it and
    reshaping the flat result into (len(x), len(y)) in the same order gives
    the grid back; so do the amplitude renderers' reshapes, order 'C' in
    the first notebook and order 'F' in the second. *)
Theorem amplitude_reshape_roundtrip (x y : list R) (g : ndarray2 R) :
  wf g -> shape0 g = length x -> shape1 g = length y ->
  (forall o, reshape 0 o (length x) (length y) (flatten 0 o g) = Some g) /\
  VectorPotential.amplitude_grid x y (flatten 0 C_order g) = Some g /\
  TotalField.plot_amplitude x y (flatten 0 F_order g) =
  Some {| pm_x := x; pm_y := y; pm_C := g |}.
Proof.
  intros Hg Hx Hy.
  unfold VectorPotential.amplitude_grid, TotalField.plot_amplitude.
  rewrite <- Hx, <- Hy.
  assert (H : forall o, reshape 0 o (shape0 g) (shape1 g) (flatten 0 o g)
                        = Some g)
    by (intros o; now apply reshape_flatten).
  split; [exact H|]. split.
  - apply (H C_order).
  - now rewrite (H F_order).
Qed.

Lemma amplitude_reshape_roundtrip_witness :
  let x := [0; 1] in
  let y := [0; 1; 2] in
  let g := mk_ndarray2 2 3 [[10; 11; 12]; [13; 14; 15]] in
  (wf g /\ shape0 g = length x /\ shape1 g = length y) /\
  (forall o, reshape 0 o (length x) (length y) (flatten 0 o g) = Some g) /\
  VectorPotential.amplitude_grid x y (flatten 0 C_order g) = Some g /\
  TotalField.plot_amplitude x y (flatten 0 F_order g) =
  Some {| pm_x := x; pm_y := y; pm_C := g |}.
Proof.
  cbv zeta.
  assert (Hg : wf (mk_ndarray2 2 3 [[10; 11; 12]; [13; 14; 15]]))
    by (split; [reflexivity | repeat constructor]).
  split; [split; [exact Hg | split; reflexivity]|].
  apply (amplitude_reshape_roundtrip [0; 1] [0; 1; 2]);
    [exact Hg | reflexivity | reflexivity].
Defined.

(** C2, as stated, fails on the grid the pipeline uses: with
    x = y = linspace(-50, 50, 100) no flat array of length
    len(x) * len(y) makes the array handed to pcolormesh differ from the
    array handed to streamplot. *)
Lemma renderers_agree_on_pipeline_grid :
  ~ exists v : list R,
      length v = (length (linspace (-50) 50 100)
                  * length (linspace (-50) 50 100))%nat /\
      VectorPotential.amplitude_grid
        (linspace (-50) 50 100) (linspace (-50) 50 100) v <>
      VectorPotential.streamline_grid
        (linspace (-50) 50 100) (linspace (-50) 50 100) v.
Proof.
  intros [v [_ Hne]]. apply Hne.
  apply square_grids_agree. reflexivity.
Qed.

(** C2 (amended): on a square grid with at least two samples per axis,
    as the pipeline's 100 x 100 grid is, the two reshape orders the
    renderers name give different arrays for some flat array of length
    len(x) * len(y); but the streamline renderer transposes its reshape
    before plotting, so for every such flat array the array handed to
    pcolormesh and the array handed to streamplot are the same. *)
Theorem renderers_on_square_grid (x y : list R) :
  length x = length y -> (2 <= length x)%nat ->
  (exists v, length v = (length x * length y)%nat /\
             reshape 0 C_order (length x) (length y) v <>
             reshape 0 F_order (length x) (length y) v) /\
  (forall v, length v = (length x * length y)%nat ->
             exists a, VectorPotential.amplitude_grid x y v = Some a /\
                       VectorPotential.streamline_grid x y v = Some a).
Proof.
  intros Hxy Hx. split.
  - exists (map INR (seq 0 (length x * length y))). split.
    + now rewrite length_map, length_seq.
    + rewrite <- Hxy. now apply orders_differ.
  - intros v Hv.
    rewrite <- (square_grids_agree x y v Hxy).
    unfold VectorPotential.amplitude_grid.
    rewrite reshape_some by assumption. eexists. split; reflexivity.
Qed.

Lemma renderers_on_square_grid_witness :
  let x := linspace (-50) 50 100 in
  let y := linspace (-50) 50 100 in
  (length x = length y /\ (2 <= length x)%nat) /\
  (exists v, length v = (length x * length y)%nat /\
             reshape 0 C_order (length x) (length y) v <>
             reshape 0 F_order (length x) (length y) v) /\
  (forall v, length v = (length x * length y)%nat ->
             exists a, VectorPotential.amplitude_grid x y v = Some a /\
                       VectorPotential.streamline_grid x y v = Some a).
Proof.
  cbv zeta. split; [split; [reflexivity | simpl; lia]|].
  apply (renderers_on_square_grid
           (linspace (-50) 50 100) (linspace (-50) 50 100));
    [reflexivity | simpl; lia].
Defined.

(** ** The interaction driver *)

Import VectorPotential.

(** Normalising in place: a zero vector turns into NaN, any other vector
    into the vector of norm 1 along it. *)
Lemma norm3_zero_iff (v : vec3) : norm3 v = 0 <-> v = (0, 0, 0).
Proof.
  destruct v as [[a b] c]. unfold norm3, vx, vy, vz; simpl. split.
  - intros H. apply sqrt_eq_0 in H; [|nra].
    assert (Ha : a * a = 0) by nra.
    assert (Hb : b * b = 0) by nra.
    assert (Hc : c * c = 0) by nra.
    apply Rmult_integral in Ha, Hb, Hc.
    repeat f_equal; tauto.
  - intros [= -> -> ->].
    replace (0 * 0 + 0 * 0 + 0 * 0) with 0 by ring. apply sqrt_0.
Qed.

Lemma normalise_zero : normalise_in_place (Values (0, 0, 0)) = NaNs.
Proof.
  unfold normalise_in_place.
  destruct (Req_dec_T (norm3 (0, 0, 0)) 0) as [_|H]; [reflexivity|].
  elim H. now apply norm3_zero_iff.
Qed.

Lemma normalise_nonzero (v : vec3) :
  v <> (0, 0, 0) ->
  normalise_in_place (Values v) =
  Values (vx v / norm3 v, vy v / norm3 v, vz v / norm3 v).
Proof.
  intros Hv. unfold normalise_in_place.
  destruct (Req_dec_T (norm3 v) 0) as [H|_]; [|reflexivity].
  elim Hv. now apply norm3_zero_iff.
Qed.

Lemma norm3_normalised (v : vec3) :
  v <> (0, 0, 0) ->
  norm3 (vx v / norm3 v, vy v / norm3 v, vz v / norm3 v) = 1.
Proof.
  intros Hv.
  assert (Hn : norm3 v <> 0) by (intros H; now apply Hv, norm3_zero_iff).
  assert (Hsq : norm3 v * norm3 v = vx v * vx v + vy v * vy v + vz v * vz v).
  { unfold norm3. apply sqrt_def.
    assert (H1 := Rle_0_sqr (vx v)). assert (H2 := Rle_0_sqr (vy v)).
    assert (H3 := Rle_0_sqr (vz v)). unfold Rsqr in *. lra. }
  set (n := norm3 v) in *.
  set (a := vx v) in *. set (b := vy v) in *. set (c := vz v) in *.
  unfold norm3, vx, vy, vz. cbn [fst snd].
  replace (a / n * (a / n) + b / n * (b / n) + c / n * (c / n))
    with ((a * a + b * b + c * c) / (n * n)) by (field; exact Hn).
  rewrite <- Hsq. unfold Rdiv. rewrite Rinv_r; [apply sqrt_1|].
  intros H. apply Rmult_integral in H. tauto.
Qed.






(** C9: the sliders have the documented ranges and steps: moment over
    [-1, 3], radius over [1, 40] with step 1, inclination over [0, 67]
    with step 1, declination over [0, 90]. *)
Theorem slider_ranges :
  (slider_min (interactive Moment) = -1 /\
   slider_max (interactive Moment) = 3) /\
  (slider_min (interactive Radius) = 1 /\
   slider_max (interactive Radius) = 40 /\
   slider_step (interactive Radius) = 1) /\
  (slider_min (TotalField.interactive TotalField.Inclination) = 0 /\
   slider_max (TotalField.interactive TotalField.Inclination) = 67 /\
   slider_step (TotalField.interactive TotalField.Inclination) = 1) /\
  (slider_min (TotalField.interactive TotalField.Declination) = 0 /\
   slider_max (TotalField.interactive TotalField.Declination) = 90).
Proof. repeat split; reflexivity. Qed.

(** The setting [zero_orientation] is one the sliders allow. *)
Lemma zero_orientation_admissible (c : control) :
  admissible (interactive c) (zero_orientation c).
Proof.
  unfold admissible.
  destruct c; unfold zero_orientation, set_control; simpl; split; try lra.
  - exists 2%nat. simpl. lra.
  - exists 2%nat. simpl. lra.
  - exists 19%nat. simpl. lra.
  - exists 40%nat. simpl. lra.
  - exists 40%nat. simpl. lra.
  - exists 40%nat. simpl. lra.
  - exists 0%nat. simpl. lra.
  - exists 0%nat. simpl. lra.
  - exists 0%nat. simpl. lra.
Qed.

(** C10, as stated, fails for the loop: with the three orientation
    sliders at 0, a setting every slider allows, the orientation the loop
    constructor is passed is not the zero vector. *)
Lemma zero_orientation_loop_not_zero :
  admissible_setting zero_orientation /\
  built_orientation zero_orientation = (0, 0, 0) /\
  loop_orientation (loop (@rerun stub_evaluator zero_orientation))
  <> Values (0, 0, 0).
Proof.
  split; [exact zero_orientation_admissible|]. split; [reflexivity|].
  unfold rerun, plot_fields; cbv zeta. cbn [loop loop_orientation].
  change (zero_orientation Orientation_x) with 0.
  change (zero_orientation Orientation_y) with 0.
  change (zero_orientation Orientation_z) with 0.
  rewrite normalise_zero. discriminate.
Qed.

(** C10 (amended): there is a setting of the controls of the first
    notebook that every slider allows, with the three orientation sliders
    at 0, for which the orientation passed to the dipole constructor is
    the zero vector; the dipole's constructor turns that array into NaN in
    place, and (nan, nan, nan) is what the loop constructor is passed.  So
    the non-zero-orientation invariant can be broken from the sliders. *)
Theorem zero_orientation_reachable (E : FieldEvaluator) :
  exists kw : kwargs,
    (forall c, admissible (interactive c) (kw c)) /\
    (kw Orientation_x = 0 /\ kw Orientation_y = 0 /\ kw Orientation_z = 0) /\
    dipole_orientation (dipole (rerun kw)) = (0, 0, 0) /\
    loop_orientation (loop (rerun kw)) = NaNs.
Proof.
  exists zero_orientation. split; [apply zero_orientation_admissible|].
  split; [repeat split; reflexivity|]. split; [reflexivity|].
  unfold rerun, plot_fields; cbv zeta. cbn [loop loop_orientation].
  change (zero_orientation Orientation_x) with 0.
  change (zero_orientation Orientation_y) with 0.
  change (zero_orientation Orientation_z) with 0.
  apply normalise_zero.
Qed.

(** * Further properties of the notebooks' code *)

(** ** Reshape, flatten and transpose *)

Section MoreArrayFacts.
Variable A : Type.
Variable d : A.

(** The row-major table of a flat array, laid end to end, is the array. *)
Lemma concat_row_major_table n m (v : list A) :
  length v = (n * m)%nat ->
  concat (rows (tabulate n m (fun i j => nth (i * m + j) v d))) = v.
Proof.
  intros Hv.
  assert (Hwf := wf_tabulate A n m (fun i j => nth (i * m + j) v d)).
  destruct Hwf as [Hn Hm]. simpl shape0 in Hn. simpl shape1 in Hm.
  apply (nth_ext _ _ d d).
  - rewrite (length_concat_uniform A m) by exact Hm. now rewrite Hn.
  - intros k Hk.
    rewrite (length_concat_uniform A m), Hn in Hk by exact Hm.
    assert (Hm0 : m <> 0%nat) by (intros ->; lia).
    assert (Hj : (k mod m < m)%nat) by now apply Nat.mod_upper_bound.
    assert (Hi : (k / m < n)%nat)
      by (apply Nat.Div0.div_lt_upper_bound; lia).
    assert (Hkm : k = (k / m * m + k mod m)%nat)
      by (rewrite (Nat.div_mod_eq k m) at 1; lia).
    rewrite Hkm at 1.
    rewrite (nth_concat_uniform A d m) by assumption.
    change (get d (tabulate n m (fun i j => nth (i * m + j) v d))
                (k / m) (k mod m) = nth k v d).
    rewrite get_tabulate by assumption. now rewrite <- Hkm.
Qed.

Lemma flatten_reshape_some o n m (v : list A) :
  length v = (n * m)%nat ->
  flatten d o (tabulate n m (fun i j => nth (ravel_index o n m i j) v d)) = v.
Proof.
  intros Hv. destruct o; unfold flatten, ravel_index.
  - now apply concat_row_major_table.
  - rewrite transpose_tabulate.
    rewrite (tabulate_ext A m n _ (fun i j => nth (i * n + j) v d)).
    + apply concat_row_major_table. lia.
    + intros j i _ _. f_equal. lia.
Qed.

(** X1: whenever a reshape succeeds, flattening its result in the same order
    gives the flat array back, and the result is a well-formed array of
    the shape asked for. *)
Theorem flatten_reshape o n m (v : list A) (a : ndarray2 A) :
  reshape d o n m v = Some a ->
  flatten d o a = v /\ wf a /\ shape0 a = n /\ shape1 a = m.
Proof.
  unfold reshape. destruct (Nat.eqb_spec (length v) (n * m)) as [Hv|Hv];
    [|discriminate].
  intros [= <-]. split; [now apply flatten_reshape_some|].
  split; [apply wf_tabulate|]. split; reflexivity.
Qed.

(** X2: transposing twice gives a well-formed array back. *)
Theorem transpose_involutive (a : ndarray2 A) :
  wf a -> transpose d (transpose d a) = a.
Proof.
  intros Ha. unfold transpose at 2. rewrite transpose_tabulate.
  symmetry. now apply wf_eq_tabulate.
Qed.

End MoreArrayFacts.

Lemma flatten_reshape_witness :
  let v := [10; 11; 12; 13; 14; 15]%nat in
  let a := mk_ndarray2 2 3 [[10; 12; 14]; [11; 13; 15]]%nat in
  reshape 0%nat F_order 2 3 v = Some a /\
  flatten 0%nat F_order a = v /\ wf a /\ shape0 a = 2%nat /\ shape1 a = 3%nat.
Proof.
  cbv zeta. split; [reflexivity|].
  apply (flatten_reshape nat 0%nat F_order 2 3). reflexivity.
Defined.

Lemma transpose_involutive_witness :
  let a := mk_ndarray2 2 3 [[10; 12; 14]; [11; 13; 15]]%nat in
  wf a /\ transpose 0%nat (transpose 0%nat a) = a.
Proof.
  cbv zeta.
  assert (Ha : wf (mk_ndarray2 2 3 [[10; 12; 14]; [11; 13; 15]]%nat))
    by (split; [reflexivity | repeat constructor]).
  split; [exact Ha|].
  apply (transpose_involutive nat 0%nat _ Ha).
Defined.

(** ** When the figure is drawn *)

Lemma reshape_is_some (o : order) (n m : nat) (w : list R) :
  reshape 0 o n m w <> None <-> length w = (n * m)%nat.
Proof.
  unfold reshape. destruct (Nat.eqb_spec (length w) (n * m)); split;
    intros H; try assumption; try discriminate; now elim H.
Qed.

Lemma total_plot_amplitude_is_some (x y v : list R) :
  TotalField.plot_amplitude x y v <> None <->
  length v = (length x * length y)%nat.
Proof.
  unfold TotalField.plot_amplitude.
  rewrite <- (reshape_is_some F_order).
  destruct (reshape 0 F_order _ _ _); simpl; split; intros H;
    try discriminate; try assumption; now elim H.
Qed.

(** X4: the second notebook draws its two images exactly when the total
    fields of the dipole and of the pole both come back with one value
    per grid point. *)
Theorem total_figure_shown_iff (E : FieldEvaluator)
  (inclination declination : R) :
  let r := TotalField.plot_fields inclination declination in
  let b_total_dipole :=
    dipole_dot_orientation (TotalField.dipole r)
      (dipole_magnetic_flux_density (TotalField.dipole r)
         (TotalField.xyz r)) in
  let b_total_pole :=
    pole_dot_orientation (TotalField.pole r)
      (pole_magnetic_flux_density (TotalField.pole r) (TotalField.xyz r)) in
  TotalField.shown r <> None <->
  length b_total_dipole = length (TotalField.xyz r) /\
  length b_total_pole = length (TotalField.xyz r).
Proof.
  cbv zeta. unfold TotalField.plot_fields.
  cbv zeta. cbn [TotalField.shown TotalField.dipole TotalField.pole
                 TotalField.xyz].
  set (x := linspace (-36) 36 100).
  set (xyz := ndgrid x x [1]).
  set (bd := dipole_dot_orientation _ _).
  set (bp := pole_dot_orientation _ _).
  assert (Hxyz : length xyz = (length x * length x)%nat)
    by (unfold xyz; rewrite ndgrid_length; simpl length; lia).
  rewrite Hxyz.
  rewrite <- (total_plot_amplitude_is_some x x bd).
  rewrite <- (total_plot_amplitude_is_some x x bp).
  destruct (TotalField.plot_amplitude x x bd),
           (TotalField.plot_amplitude x x bp);
    intuition congruence.
Qed.

(** ** Which grid point each cell of an image shows *)

Lemma nth_map_any {X Y : Type} (h : X -> Y) (l : list X) (k : nat) dx dy :
  (k < length l)%nat -> nth k (map h l) dy = h (nth k l dx).
Proof.
  intros Hk. rewrite (nth_indep _ dy (h dx)) by now rewrite length_map.
  apply map_nth.
Qed.

(** The grid lists its points with the first axis running fastest. *)
Lemma ndgrid_nth (xs ys : list R) (z : R) (i j : nat) :
  (i < length xs)%nat -> (j < length ys)%nat ->
  nth (j * length xs + i) (ndgrid xs ys [z]) (0, 0, 0) =
  (nth i xs 0, nth j ys 0, z).
Proof.
  intros Hi Hj. unfold ndgrid. simpl flat_map. rewrite app_nil_r.
  rewrite flat_map_concat_map.
  rewrite (nth_concat_uniform vec3 (0, 0, 0) (length xs)).
  - rewrite (nth_map_any (fun y => map (fun x => (x, y, z)) xs) ys j 0)
      by assumption.
    now rewrite (nth_map_any (fun x => (x, nth j ys 0, z)) xs i 0).
  - apply Forall_forall. intros r Hr. apply in_map_iff in Hr.
    destruct Hr as [y [<- _]]. apply length_map.
  - assumption.
Qed.

Lemma sample_nth (h : vec3 -> R) (f : vec3 -> vec3) (xs ys : list R)
  (z : R) (i j : nat) :
  (i < length xs)%nat -> (j < length ys)%nat ->
  nth (j * length xs + i) (map h (map f (ndgrid xs ys [z]))) 0 =
  h (f (nth i xs 0, nth j ys 0, z)).
Proof.
  intros Hi Hj. rewrite map_map.
  rewrite (nth_map_any (fun p => h (f p)) _ _ (0, 0, 0)).
  - now rewrite ndgrid_nth.
  - rewrite ndgrid_length. simpl length. nia.
Qed.

(** X5: for a field sampled on the grid [ndgrid x y [z]], on any axes, the
    reshapes of the streamline renderer do not raise, and the two arrays
    it builds for streamplot ([vx.T] and [vy.T]) have shape
    (len(y), len(x)); their cell in row j and column i holds the field's
    first and second component at the point (x_i, y_j, z). *)
Theorem streamlines_follow_grid (x y : list R) (z : R) (f : vec3 -> vec3) :
  exists u v,
    VectorPotential.streamline_grid x y (map vx (map f (ndgrid x y [z])))
    = Some u /\
    VectorPotential.streamline_grid x y (map vy (map f (ndgrid x y [z])))
    = Some v /\
    shape0 u = length y /\ shape1 u = length x /\
    shape0 v = length y /\ shape1 v = length x /\
    forall i j, (i < length x)%nat -> (j < length y)%nat ->
      get 0 u j i = vx (f (nth i x 0, nth j y 0, z)) /\
      get 0 v j i = vy (f (nth i x 0, nth j y 0, z)).
Proof.
  rewrite !streamline_grid_row_major.
  assert (Hlen : forall h : vec3 -> R,
             length (map h (map f (ndgrid x y [z])))
             = (length y * length x)%nat).
  { intros h. rewrite !length_map, ndgrid_length. simpl length. lia. }
  rewrite !reshape_some by apply Hlen.
  eexists. eexists. split; [reflexivity|]. split; [reflexivity|].
  repeat (split; [reflexivity|]).
  intros i j Hi Hj. rewrite !get_tabulate by assumption.
  unfold ravel_index. now rewrite !sample_nth.
Qed.

(** X6: on a square grid, for a field sampled on [ndgrid x y [z]], the
    reshape of the first notebook's amplitude renderer does not raise, and
    the cell in row a and column b of the array it builds for pcolormesh
    holds the field's magnitude at the point (x_b, y_a, z): rows follow y
    and columns follow x, as in the streamline arrays. *)
Theorem amplitude_follows_grid (x y : list R) (z : R) (f : vec3 -> vec3) :
  length x = length y ->
  exists c,
    VectorPotential.amplitude_grid x y
      (vector_magnitude (map f (ndgrid x y [z]))) = Some c /\
    shape0 c = length x /\ shape1 c = length y /\
    forall a b, (a < length y)%nat -> (b < length x)%nat ->
      get 0 c a b = norm3 (f (nth b x 0, nth a y 0, z)).
Proof.
  intros Hxy.
  unfold VectorPotential.amplitude_grid, vector_magnitude.
  rewrite reshape_some
    by (rewrite !length_map, ndgrid_length; simpl length; lia).
  eexists. split; [reflexivity|].
  repeat (split; [reflexivity|]).
  intros a b Ha Hb. rewrite get_tabulate by lia.
  unfold ravel_index. rewrite <- Hxy. now rewrite sample_nth.
Qed.

Lemma amplitude_follows_grid_witness :
  let x := [0; 1] in
  let y := [5; 6] in
  length x = length y /\
  exists c,
    VectorPotential.amplitude_grid x y
      (vector_magnitude (map (fun q => q) (ndgrid x y [0]))) = Some c /\
    shape0 c = length x /\ shape1 c = length y /\
    forall a b, (a < length y)%nat -> (b < length x)%nat ->
      get 0 c a b = norm3 (nth b x 0, nth a y 0, 0).
Proof.
  cbv zeta. split; [reflexivity|].
  apply (amplitude_follows_grid [0; 1] [5; 6] 0 (fun q => q)). reflexivity.
Defined.

(** X7: for samples taken on [ndgrid x y [z]], on any axes, the reshape of
    the second notebook's amplitude renderer
    ([v.reshape(len(x), len(y), order='F')]) does not raise, and the cell
    in row a and column b of the array it gives holds the sample at the
    point (x_a, y_b, z): rows follow x and columns follow y. *)
Theorem total_amplitude_follows_grid (x y : list R) (z : R)
  (g : vec3 -> R) :
  exists c,
    reshape 0 F_order (length x) (length y) (map g (ndgrid x y [z]))
    = Some c /\
    shape0 c = length x /\ shape1 c = length y /\
    forall a b, (a < length x)%nat -> (b < length y)%nat ->
      get 0 c a b = g (nth a x 0, nth b y 0, z).
Proof.
  rewrite reshape_some
    by (rewrite !length_map, ndgrid_length; simpl length; lia).
  eexists. split; [reflexivity|].
  repeat (split; [reflexivity|]).
  intros a b Ha Hb. rewrite get_tabulate by assumption.
  unfold ravel_index. rewrite Nat.add_comm.
  rewrite <- (map_id (ndgrid x y [z])).
  now rewrite (sample_nth g (fun q => q)).
Qed.

(** X8: on a square grid the image of the second notebook's amplitude
    renderer is the transpose of the image the first notebook's reshape
    gives for the same flat samples. *)
Theorem notebooks_images_transposed (x y v : list R) :
  length x = length y -> length v = (length x * length y)%nat ->
  exists a p,
    VectorPotential.amplitude_grid x y v = Some a /\
    TotalField.plot_amplitude x y v = Some p /\
    pm_C p = transpose 0 a.
Proof.
  intros Hxy Hv.
  unfold VectorPotential.amplitude_grid, TotalField.plot_amplitude.
  rewrite !reshape_some by assumption.
  eexists. eexists. split; [reflexivity|]. split; [reflexivity|].
  cbn [pm_C]. rewrite transpose_tabulate. rewrite <- Hxy.
  apply tabulate_ext. intros i j _ _. unfold ravel_index. f_equal. lia.
Qed.

Lemma notebooks_images_transposed_witness :
  let x := [0; 1] in
  let y := [5; 6] in
  let v := [10; 11; 12; 13] in
  (length x = length y /\ length v = (length x * length y)%nat) /\
  exists a p,
    VectorPotential.amplitude_grid x y v = Some a /\
    TotalField.plot_amplitude x y v = Some p /\
    pm_C p = transpose 0 a.
Proof.
  cbv zeta. split; [split; reflexivity|].
  apply (notebooks_images_transposed [0; 1] [5; 6]); reflexivity.
Defined.

Lemma nonsquare_grids_differ_witness :
  let x := [0] in
  let y := [5; 6] in
  let w := [10; 11] in
  let a := mk_ndarray2 1 2 [[10; 11]] in
  let b := mk_ndarray2 2 1 [[10]; [11]] in
  (length x <> length y /\
   VectorPotential.amplitude_grid x y w = Some a /\
   VectorPotential.streamline_grid x y w = Some b) /\
  shape0 a <> shape0 b.
Proof.
  cbv zeta.
  assert (H : length [0] <> length [5; 6]) by (simpl; lia).
  split; [split; [exact H | split; reflexivity]|].
  apply (nonsquare_grids_differ [0] [5; 6] [10; 11] _ _ H); reflexivity.
Defined.

(** ** More on the orientation converter *)

Lemma id_to_cartesian_squares (inclination declination : R) :
  let u := TotalField.id_to_cartesian inclination declination in
  vx u * vx u + vy u * vy u + vz u * vz u = 1.
Proof.
  cbv zeta. unfold TotalField.id_to_cartesian, vx, vy, vz; simpl.
  set (i := inclination / 180 * PI).
  set (e := declination / 180 * PI).
  replace (cos i * sin e * (cos i * sin e) + cos i * cos e * (cos i * cos e)
           + - sin i * - sin i)
    with ((sin i)² + (cos i)² * ((sin e)² + (cos e)²)) by (unfold Rsqr; ring).
  now rewrite (sin2_cos2 e), Rmult_1_r, sin2_cos2.
Qed.

(** X10: whatever the two angles, the second notebook's [plot_fields] gives the
    dipole and the pole one and the same orientation, of norm 1 and so
    never the zero vector. *)
Theorem total_field_orientation_unit (E : FieldEvaluator)
  (inclination declination : R) :
  let r := TotalField.plot_fields inclination declination in
  dipole_orientation (TotalField.dipole r) =
  pole_orientation (TotalField.pole r) /\
  norm3 (dipole_orientation (TotalField.dipole r)) = 1 /\
  dipole_orientation (TotalField.dipole r) <> (0, 0, 0).
Proof.
  cbv zeta. unfold TotalField.plot_fields. cbv zeta.
  cbn [TotalField.dipole TotalField.pole dipole_orientation
       pole_orientation].
  assert (H := id_to_cartesian_squares inclination declination).
  cbv zeta in H. split; [reflexivity|]. split.
  - unfold norm3. rewrite H. apply sqrt_1.
  - intros H0. rewrite H0 in H. unfold vx, vy, vz in H. simpl in H. lra.
Qed.

(** X11: for every setting the two sliders of the second notebook allow
    (inclination in [0, 67], declination in [0, 90]) the orientation points
    east or north of the origin and downwards: its first two components
    are not negative and its third is not positive. *)
Theorem slider_orientation_quadrant (inclination declination : R) :
  admissible (TotalField.interactive TotalField.Inclination) inclination ->
  admissible (TotalField.interactive TotalField.Declination) declination ->
  let u := TotalField.id_to_cartesian inclination declination in
  0 <= vx u /\ 0 <= vy u /\ vz u <= 0.
Proof.
  intros [[Hi0 Hi1] _] [[Hd0 Hd1] _]. simpl in Hi0, Hi1, Hd0, Hd1.
  cbv zeta. unfold TotalField.id_to_cartesian, vx, vy, vz; simpl.
  assert (Hpi := PI_RGT_0).
  set (i := inclination / 180 * PI).
  set (e := declination / 180 * PI).
  assert (Hi : 0 <= i <= PI / 2) by (unfold i; split; nra).
  assert (He : 0 <= e <= PI / 2) by (unfold e; split; nra).
  assert (Hci : 0 <= cos i) by (apply cos_ge_0; lra).
  assert (Hce : 0 <= cos e) by (apply cos_ge_0; lra).
  assert (Hsi : 0 <= sin i) by (apply sin_ge_0; lra).
  assert (Hse : 0 <= sin e) by (apply sin_ge_0; lra).
  repeat split; try nra.
Qed.

Lemma slider_orientation_quadrant_witness :
  (admissible (TotalField.interactive TotalField.Inclination) 2 /\
   admissible (TotalField.interactive TotalField.Declination) 0) /\
  let u := TotalField.id_to_cartesian 2 0 in
  0 <= vx u /\ 0 <= vy u /\ vz u <= 0.
Proof.
  assert (H2 : admissible (TotalField.interactive TotalField.Inclination) 2).
  { split; simpl; [lra|]. exists 2%nat. simpl. lra. }
  assert (H0 : admissible (TotalField.interactive TotalField.Declination) 0).
  { split; simpl; [lra|]. exists 0%nat. simpl. lra. }
  split; [split; assumption|].
  apply (slider_orientation_quadrant 2 0 H2 H0).
Defined.

(** X12: the converter has period 360 degrees in each angle. *)
Theorem id_to_cartesian_periodic (inclination declination : R) :
  TotalField.id_to_cartesian (inclination + 360) declination =
  TotalField.id_to_cartesian inclination declination /\
  TotalField.id_to_cartesian inclination (declination + 360) =
  TotalField.id_to_cartesian inclination declination.
Proof.
  unfold TotalField.id_to_cartesian; cbv zeta.
  replace ((inclination + 360) / 180 * PI)
    with (inclination / 180 * PI + 2 * PI) by field.
  replace ((declination + 360) / 180 * PI)
    with (declination / 180 * PI + 2 * PI) by field.
  rewrite !cos_plus, !sin_plus, cos_2PI, sin_2PI.
  split; repeat f_equal; ring.
Qed.

(** X13: at inclination 90 the orientation is straight down and at inclination
    -90 straight up, whatever the declination. *)
Theorem id_to_cartesian_vertical (declination : R) :
  TotalField.id_to_cartesian 90 declination = (0, 0, -1) /\
  TotalField.id_to_cartesian (-90) declination = (0, 0, 1).
Proof.
  unfold TotalField.id_to_cartesian; cbv zeta.
  replace (90 / 180 * PI) with (PI / 2) by field.
  replace (-90 / 180 * PI) with (- (PI / 2)) by field.
  rewrite cos_neg, sin_neg, cos_PI2, sin_PI2.
  split; repeat f_equal; ring.
Qed.

(** ** The axes and the grid *)

Lemma linspace_nth (start stop : R) (num i : nat) :
  (2 <= num)%nat -> (i < num)%nat ->
  nth i (linspace start stop num) 0 =
  start + INR i * ((stop - start) / INR (num - 1)).
Proof.
  intros Hn Hi. destruct num as [|[|n]]; try lia.
  unfold linspace.
  rewrite (nth_map_any _ _ _ 0%nat) by now rewrite length_seq.
  now rewrite seq_nth.
Qed.

Lemma linspace_in (start stop : R) (num : nat) (v : R) :
  (2 <= num)%nat -> In v (linspace start stop num) ->
  exists i, (i < num)%nat /\
            v = start + INR i * ((stop - start) / INR (num - 1)).
Proof.
  intros Hn Hv. destruct num as [|[|n]]; try lia.
  unfold linspace in Hv. apply in_map_iff in Hv.
  destruct Hv as [i [<- Hi]]. apply in_seq in Hi.
  exists i. split; [lia | reflexivity].
Qed.

Lemma ndgrid_first (xs ys zs : list R) (p : vec3) :
  In p (ndgrid xs ys zs) -> In (vx p) xs.
Proof.
  unfold ndgrid. intros Hp.
  apply in_flat_map in Hp. destruct Hp as [z [_ Hp]].
  apply in_flat_map in Hp. destruct Hp as [y [_ Hp]].
  apply in_map_iff in Hp. destruct Hp as [x [<- Hx]]. exact Hx.
Qed.

(** X14: an axis of at least two samples over [start < stop] begins at
    [start], ends at [stop], is evenly spaced and strictly increasing. *)
Theorem linspace_axis (start stop : R) (num : nat) :
  start < stop -> (2 <= num)%nat ->
  let l := linspace start stop num in
  nth 0 l 0 = start /\
  nth (num - 1) l 0 = stop /\
  (forall i, (S i < num)%nat ->
             nth (S i) l 0 - nth i l 0 = (stop - start) / INR (num - 1)) /\
  (forall i j, (i < j < num)%nat -> nth i l 0 < nth j l 0).
Proof.
  intros Hlt Hn. cbv zeta.
  assert (Hpos : 0 < INR (num - 1)) by (apply lt_0_INR; lia).
  assert (Hstep : 0 < (stop - start) / INR (num - 1))
    by (apply Rdiv_lt_0_compat; lra).
  repeat split.
  - rewrite linspace_nth by lia. simpl INR. lra.
  - rewrite linspace_nth by lia. field. lra.
  - intros i Hi. rewrite !linspace_nth by lia. rewrite S_INR. lra.
  - intros i j Hij. rewrite !linspace_nth by lia.
    assert (Hinr : INR i < INR j) by (apply lt_INR; lia).
    nra.
Qed.

Lemma linspace_axis_witness :
  (-50 < 50 /\ (2 <= 100)%nat) /\
  let l := linspace (-50) 50 100 in
  nth 0 l 0 = -50 /\
  nth (100 - 1) l 0 = 50 /\
  (forall i, (S i < 100)%nat ->
             nth (S i) l 0 - nth i l 0 = (50 - -50) / INR (100 - 1)) /\
  (forall i j, (i < j < 100)%nat -> nth i l 0 < nth j l 0).
Proof.
  assert (H1 : -50 < 50) by lra.
  assert (H2 : (2 <= 100)%nat) by lia.
  split; [split; assumption|].
  apply (linspace_axis (-50) 50 100 H1 H2).
Defined.

(** X15: the grid of the second notebook has 10000 points, all at height 1,
    and none of them is the location (0, 0, -10) of the dipole and the
    pole. *)
Theorem total_field_grid (E : FieldEvaluator) (inclination declination : R) :
  let r := TotalField.plot_fields inclination declination in
  Z.of_nat (length (TotalField.xyz r)) = 10000%Z /\
  Forall (fun p => vz p = 1 /\
                   p <> dipole_location (TotalField.dipole r) /\
                   p <> pole_location (TotalField.pole r))
         (TotalField.xyz r).
Proof.
  cbv zeta. unfold TotalField.plot_fields. cbv zeta.
  cbn [TotalField.dipole TotalField.pole TotalField.xyz dipole_location
       pole_location].
  split.
  - rewrite ndgrid_length, !linspace_length. reflexivity.
  - eapply Forall_impl; [|apply ndgrid_third].
    intros p [H|[]]. unfold TotalField.location.
    repeat split; [now symmetry | |]; intros ->; unfold vz in H;
      simpl in H; lra.
Qed.

(** X16: with the slider of [location_x] at any value it allows (-40, -39,
    ..., 40), no grid point of the first notebook is the location of the
    dipole or of the loop, wherever the other sliders are: the first
    coordinates already differ, the axis samples -50 + 100 i / 99 being
    whole numbers only at its two ends. *)
Theorem grid_misses_source (E : FieldEvaluator)
  (kw : VectorPotential.kwargs) :
  admissible (VectorPotential.interactive VectorPotential.Location_x)
             (kw VectorPotential.Location_x) ->
  let r := VectorPotential.rerun kw in
  Forall (fun p => p <> dipole_location (VectorPotential.dipole r) /\
                   p <> loop_location (VectorPotential.loop r))
         (VectorPotential.xyz r).
Proof.
  intros [[_ Hmax] [k Hk]]. simpl in Hmax, Hk. cbv zeta.
  unfold VectorPotential.rerun, VectorPotential.plot_fields. cbv zeta.
  cbn [VectorPotential.dipole VectorPotential.loop VectorPotential.xyz
       dipole_location loop_location].
  apply Forall_forall. intros p Hp.
  apply ndgrid_first, linspace_in in Hp; [|lia].
  destruct Hp as [i [Hi Hv]].
  change (100 - 1)%nat with 99%nat in Hv.
  rewrite (INR_IZR_INZ 99) in Hv. change (Z.of_nat 99) with 99%Z in Hv.
  rewrite INR_IZR_INZ in Hv. rewrite INR_IZR_INZ in Hk.
  assert (Hne : vx p <> kw VectorPotential.Location_x).
  { intros Heq.
    assert (Hk80 : IZR (Z.of_nat k) <= IZR 80) by lra.
    apply le_IZR in Hk80.
    assert (Hmul : IZR (100 * Z.of_nat i) = IZR (99 * (Z.of_nat k + 10)))
      by (rewrite !mult_IZR, plus_IZR; lra).
    apply eq_IZR in Hmul. lia. }
  split; intros ->; apply Hne; reflexivity.
Qed.

Lemma grid_misses_source_witness :
  admissible (VectorPotential.interactive VectorPotential.Location_x)
             (VectorPotential.defaults VectorPotential.Location_x) /\
  let r := @VectorPotential.rerun stub_evaluator VectorPotential.defaults in
  Forall (fun p => p <> dipole_location (VectorPotential.dipole r) /\
                   p <> loop_location (VectorPotential.loop r))
         (VectorPotential.xyz r).
Proof.
  assert (H : admissible
                (VectorPotential.interactive VectorPotential.Location_x)
                (VectorPotential.defaults VectorPotential.Location_x)).
  { split; simpl; [lra|]. exists 40%nat. simpl. lra. }
  split; [exact H|].
  apply (grid_misses_source stub_evaluator VectorPotential.defaults H).
Defined.

(** ** The sliders *)

(** X17: every default of [plot_fields] in the first notebook is a value its
    slider allows: inside the range and on a step. *)
Theorem defaults_admissible (c : VectorPotential.control) :
  admissible (VectorPotential.interactive c) (VectorPotential.defaults c).
Proof.
  unfold admissible. destruct c; simpl; (split; [lra|]).
  - exists 2%nat. simpl. lra.
  - exists 2%nat. simpl. lra.
  - exists 19%nat. simpl. lra.
  - exists 40%nat. simpl. lra.
  - exists 40%nat. simpl. lra.
  - exists 40%nat. simpl. lra.
  - exists 0%nat. simpl. lra.
  - exists 0%nat. simpl. lra.
  - exists 10%nat. simpl. lra.
Qed.

(** X18: the first notebook does not normalise the orientation it builds
    from the three sliders: some setting the sliders allow passes the
    dipole constructor an orientation whose norm is not 1.  The loop, which
    is passed the same array after the dipole's constructor has normalised
    it in place, gets an orientation of norm 1 there. *)
Theorem orientation_not_normalised (E : FieldEvaluator) :
  exists kw : VectorPotential.kwargs,
    (forall c, admissible (VectorPotential.interactive c) (kw c)) /\
    norm3 (dipole_orientation
             (VectorPotential.dipole (VectorPotential.rerun kw))) <> 1 /\
    exists u,
      loop_orientation (VectorPotential.loop (VectorPotential.rerun kw))
      = Values u /\
      norm3 u = 1.
Proof.
  exists (fun c => match c with
                   | VectorPotential.Orientation_x => 1
                   | _ => VectorPotential.defaults c
                   end).
  assert (Hnorm : norm3 (1, 0, 1) <> 1).
  { unfold norm3, vx, vy, vz; simpl. intros H.
    assert (H2 : sqrt (1 * 1 + 0 * 0 + 1 * 1) * sqrt (1 * 1 + 0 * 0 + 1 * 1)
                 = 1 * 1 + 0 * 0 + 1 * 1) by (apply sqrt_def; lra).
    rewrite H in H2. lra. }
  assert (Hne : (1, 0, 1) <> (0, 0, 0)) by (intros [= H]; lra).
  split; [|split; [exact Hnorm|]].
  - intros c. unfold admissible. destruct c; simpl; (split; [lra|]).
    + exists 2%nat. simpl. lra.
    + exists 2%nat. simpl. lra.
    + exists 19%nat. simpl. lra.
    + exists 40%nat. simpl. lra.
    + exists 40%nat. simpl. lra.
    + exists 40%nat. simpl. lra.
    + exists 10%nat. simpl. lra.
    + exists 0%nat. simpl. lra.
    + exists 10%nat. simpl. lra.
  - unfold VectorPotential.rerun, VectorPotential.plot_fields; cbv zeta.
    cbn [VectorPotential.loop loop_orientation VectorPotential.defaults].
    rewrite (normalise_nonzero (1, 0, 1) Hne).
    eexists. split; [reflexivity|]. now apply norm3_normalised.
Qed.

(** X19: for every setting of the controls, the loop of the first notebook
    is passed (nan, nan, nan) when the three orientation sliders are at 0,
    and otherwise a vector of norm 1 along the orientation built from the
    sliders; the loop's own normalisation then leaves the array as it is,
    so that is also what both sources hold when they are evaluated. *)
Theorem loop_orientation_normalised (E : FieldEvaluator)
  (kw : VectorPotential.kwargs) :
  let r := VectorPotential.rerun kw in
  let o := VectorPotential.built_orientation kw in
  dipole_orientation (VectorPotential.dipole r) = o /\
  (o = (0, 0, 0) -> loop_orientation (VectorPotential.loop r) = NaNs) /\
  (o <> (0, 0, 0) ->
   exists u, loop_orientation (VectorPotential.loop r) = Values u /\
             norm3 u = 1 /\
             o = (norm3 o * vx u, norm3 o * vy u, norm3 o * vz u)) /\
  VectorPotential.held_orientation r
  = loop_orientation (VectorPotential.loop r).
Proof.
  cbv zeta. unfold VectorPotential.rerun, VectorPotential.plot_fields.
  cbv zeta.
  cbn [VectorPotential.dipole VectorPotential.loop
       VectorPotential.held_orientation dipole_orientation loop_orientation].
  fold (VectorPotential.built_orientation kw).
  set (o := VectorPotential.built_orientation kw).
  split; [reflexivity|].
  destruct (Req_dec_T (norm3 o) 0) as [H0|H0].
  - assert (Ho : o = (0, 0, 0)) by now apply norm3_zero_iff.
    rewrite Ho, normalise_zero.
    split; [reflexivity|]. split; [intros H; now elim H | reflexivity].
  - assert (Ho : o <> (0, 0, 0))
      by (intros H; apply H0; now apply norm3_zero_iff).
    rewrite (normalise_nonzero o Ho).
    split; [intros H; now elim Ho|]. split.
    + intros _. eexists. split; [reflexivity|].
      split; [now apply norm3_normalised|].
      destruct o as [[a b] c]. unfold vx, vy, vz; cbn [fst snd].
      unfold vx, vy, vz in H0. repeat f_equal; field; exact H0.
    + unfold normalise_in_place.
      rewrite (norm3_normalised o Ho).
      destruct (Req_dec_T 1 0) as [H|_]; [lra|].
      unfold vx, vy, vz; cbn [fst snd].
      unfold Rdiv. now rewrite Rinv_1, !Rmult_1_r.
Qed.
